(** * ra-dataprovider-middleware: the interception proxy of [applyMiddlewares]

    A shallow embedding of [src/main.ts] and the properties of its dispatch
    algorithm.

    JavaScript functions are Rocq functions into a small monad [M] that
    threads the mutable world (the provider's store, the clock, the console),
    records the calls that spies observe, and carries either a returned value
    or a thrown exception.  Promises are values: the proxy never awaits, so a
    resolved or rejected promise travels through it like any other value. *)

From Stdlib Require Import List String ZArith Lia Bool.
From stdpp Require Import base option gmap strings.
Import ListNotations.

Set Implicit Arguments.
Local Open Scope string_scope.
Local Open Scope list_scope.

(** ** Values *)

(** The data that crosses the proxy: call arguments, results, thrown errors. *)
#[warnings="-register-all"]
Inductive Val : Type :=
| VUndefined
| VNull
| VBool (b : bool)
| VNum (n : Z)
| VStr (s : string)
| VArr (items : list Val)
| VObj (fields : list (string * Val))
| VError (name message : string)
| VResolved (v : Val)
| VRejected (reason : Val).

(** A property key of an object: a string, or a symbol. *)
Inductive PropKey : Type :=
| KStr (s : string)
| KSym (id : nat).

(** What a spy can observe: a middleware being entered, a middleware calling
    the [next] it was handed, and a method of the base provider being
    entered.  Middlewares are numbered by their position in the list. *)
Inductive Event : Type :=
| EMw (i : nat) (args : list Val)
| ENext (i : nat) (args : list Val)
| EBase (k : PropKey) (args : list Val).

(** The completion of a call: a returned value, or a thrown exception. *)
Inductive Res (A : Type) : Type :=
| Ok (a : A)
| Thrown (e : Val).
Arguments Ok {A} a.
Arguments Thrown {A} e.

(** [f()] where [f] is not callable. *)
Definition TypeError : Val := VError "TypeError" "not a function".

Section Model.
Context {W : Type}.

(** ** The effect monad *)

Record Run (A : Type) : Type := mkRun {
  trace : list Event;
  world : W;
  outcome : Res A
}.

Definition M (A : Type) : Type := W -> Run A.

Definition ret {A} (a : A) : M A :=
  fun w => {| trace := []; world := w; outcome := Ok a |}.

Definition throw {A} (e : Val) : M A :=
  fun w => {| trace := []; world := w; outcome := Thrown e |}.

(** Record an event, then run [r]. *)
Definition observed {A} (ev : Event) (r : Run A) : Run A :=
  {| trace := ev :: trace r; world := world r; outcome := outcome r |}.

(** Run [r2] after [r1], whose outcome [r2] has consumed. *)
Definition after {A B} (r1 : Run A) (r2 : Run B) : Run B :=
  {| trace := trace r1 ++ trace r2; world := world r2; outcome := outcome r2 |}.

(** A JavaScript function over data arguments: [(...args) => ...]. *)
Definition Fn : Type := list Val -> M Val.

(** A middleware: [(next, ...args) => ...]. *)
Definition Middleware : Type := Fn -> Fn.

(** ** Objects *)

(** What a property read yields: a function or plain data. *)
Inductive JSVal : Type :=
| JFun (f : Fn)
| JData (v : Val).

(** A plain object: its own string-keyed and symbol-keyed properties. *)
Record Provider : Type := mkProvider {
  str_props : gmap string JSVal;
  sym_props : gmap nat JSVal
}.

(** [target[prop]]: a missing property reads as [undefined]. *)
Definition read (target : Provider) (prop : PropKey) : JSVal :=
  match prop with
  | KStr s => default (JData VUndefined) (str_props target !! s)
  | KSym n => default (JData VUndefined) (sym_props target !! n)
  end.

(** [v(...args)]: calling a non-function throws a TypeError. *)
Definition call (v : JSVal) (args : list Val) : M Val :=
  match v with
  | JFun f => f args
  | JData _ => throw TypeError
  end.

(** [Array.prototype.reduceRight(cb, init)]: the accumulator starts at
    [init] and the elements are visited from the last to the first. *)
Definition reduceRight {A B} (cb : B -> A -> B) (init : B) (l : list A) : B :=
  fold_left cb (rev l) init.

(** ** [applyMiddlewares] (main.ts, lines 27-55) *)

(** The terminal step, lines 45-47:
    [(...args) => target[method](...args)]. *)
Definition terminal (target : Provider) (method : string) : Fn :=
  fun args => call (read target (KStr method)) args.

(** The reducer, lines 41-44:
    [(next, middleware) => () => middleware(next, ...args)].
    The closure it returns declares no parameter. *)
Definition link (args : list Val) (next : Fn) (middleware : Middleware) : Fn :=
  fun _ => middleware next args.

(** Lines 40-48. *)
Definition invokeChain (target : Provider) (method : string)
    (middlewaresToApply : list Middleware) (args : list Val) : Fn :=
  reduceRight (link args) (terminal target method) middlewaresToApply.

(** The function returned by the [get] trap, lines 33-51. *)
Definition dispatch (target : Provider) (middlewares : gmap string (list Middleware))
    (prop : PropKey) : Fn :=
  fun args =>
    match prop with
    | KSym _ => call (read target prop) args
    | KStr method =>
        let middlewaresToApply := default [] (middlewares !! method) in
        invokeChain target method middlewaresToApply args (VStr method :: args)
    end.

(** The proxy, seen through its only trap: [applyMiddlewares dp mws prop]
    is what reading [prop] on the returned proxy yields. *)
Definition applyMiddlewares (dataProvider : Provider)
    (middlewares : gmap string (list Middleware)) (prop : PropKey) : JSVal :=
  JFun (dispatch dataProvider middlewares prop).

(** ** Observable inputs

    The proxy is exercised with middlewares and base methods that report to
    a spy.  A middleware body is a small program: it may return, throw, act
    on the world (log, read the clock), or call the [next] it was handed and
    continue with how that call completed, which lets it catch. *)

Inductive Prog : Type :=
| Return (v : Val)
| Throw (e : Val)
| Act (f : W -> W * Val) (k : Val -> Prog)
| CallNext (args : list Val) (k : Res Val -> Prog).

(** [return next(...)]: complete the way [next] completed. *)
Definition Settle (r : Res Val) : Prog :=
  match r with
  | Ok v => Return v
  | Thrown e => Throw e
  end.

(** Run the body of middleware [i] against [next], reporting each call of
    [next]. *)
Fixpoint interp (i : nat) (next : Fn) (p : Prog) : M Val :=
  fun w =>
    match p with
    | Return v => ret v w
    | Throw e => throw e w
    | Act f k => interp i next (k (snd (f w))) (fst (f w))
    | CallNext b k =>
        let r := next b w in
        observed (ENext i b) (after r (interp i next (k (outcome r)) (world r)))
    end.

(** The middleware numbered [i] with the given body, reporting its entry. *)
Definition spied (i : nat) (body : list Val -> Prog) : Middleware :=
  fun next args w => observed (EMw i args) (interp i next (body args) w).

(** A list of bodies as a middleware list, numbered from [i]. *)
Fixpoint spied_from (i : nat) (bodies : list (list Val -> Prog)) : list Middleware :=
  match bodies with
  | [] => []
  | body :: rest => spied i body :: spied_from (S i) rest
  end.

(** [(next, ...args) => next(...g(args))]: rewrite the arguments, delegate,
    and return what [next] returns. *)
Definition rewriting (g : list Val -> list Val) : list Val -> Prog :=
  fun args => CallNext (g args) Settle.

(** The body never reaches a call of [next], however the world answers. *)
Inductive never_calls : Prog -> Prop :=
| never_return v : never_calls (Return v)
| never_throw e : never_calls (Throw e)
| never_act f k : (forall v, never_calls (k v)) -> never_calls (Act f k).

(** The body calls [next] exactly once, however the world and [next]
    answer. *)
Inductive calls_once : Prog -> Prop :=
| once_call b k : (forall r, never_calls (k r)) -> calls_once (CallNext b k)
| once_act f k : (forall v, calls_once (k v)) -> calls_once (Act f k).

(** A spy on every method of a provider, as [vi.spyOn] installs. *)
Definition spyOnFn (k : PropKey) (f : Fn) : Fn :=
  fun args w => observed (EBase k args) (f args w).

Definition spyOnVal (k : PropKey) (v : JSVal) : JSVal :=
  match v with
  | JFun f => JFun (spyOnFn k f)
  | JData d => JData d
  end.

Definition spyOn (dp : Provider) : Provider :=
  {| str_props := map_imap (fun s v => Some (spyOnVal (KStr s) v)) (str_props dp);
     sym_props := map_imap (fun n v => Some (spyOnVal (KSym n) v)) (sym_props dp) |}.

(** The provider's own methods report nothing by themselves. *)
Definition silent (dp : Provider) : Prop :=
  forall prop f args w, read dp prop = JFun f -> trace (f args w) = [].

(** What the terminal step reports on a spied, silent provider: the call of
    the base method with the arguments it was handed, if there is one. *)
Definition base_report (dp : Provider) (method : string) (b : list Val) : list Event :=
  match read dp (KStr method) with
  | JFun _ => [EBase (KStr method) b]
  | JData _ => []
  end.

(** A method given by its effect on the world and its completion. *)
Definition method_of (f : list Val -> W -> W * Res Val) : JSVal :=
  JFun (fun args w =>
    {| trace := []; world := fst (f args w); outcome := snd (f args w) |}).

(** The middleware entries among the events of a trace. *)
Definition is_entry (ev : Event) : bool :=
  match ev with
  | EMw _ _ => true
  | _ => false
  end.

(** The events that a chain of [rewriting] middlewares numbered from [i]
    reports before the terminal step runs. *)
Fixpoint descent (i : nat) (args : list Val) (gs : list (list Val -> list Val))
    : list Event :=
  match gs with
  | [] => []
  | g :: rest => EMw i args :: ENext i (g args) :: descent (S i) args rest
  end.

(** The arguments that reach the terminal step below a chain of [rewriting]
    middlewares: those the innermost one passes on, or those the chain was
    invoked with when there is no middleware. *)
Fixpoint handed_down (initial args : list Val) (gs : list (list Val -> list Val))
    : list Val :=
  match gs with
  | [] => initial
  | g :: rest => handed_down (g args) args rest
  end.

(** The events of one middleware layer: each call of [next] is reported,
    followed at once by what the callee reports; nothing else is. *)
Inductive relayed (i : nat) (inner : list Val -> list Event -> Prop)
    : list Event -> Prop :=
| relayed_nil : relayed i inner []
| relayed_call b seg rest :
    inner b seg -> relayed i inner rest ->
    relayed i inner (ENext i b :: seg ++ rest).

(** A property that reports nothing by itself when called. *)
Definition quiet (v : JSVal) : Prop :=
  match v with
  | JFun f => forall args w, trace (f args w) = []
  | JData _ => True
  end.

(** ** Wrapping any object

    The target of the proxy may itself be a proxy.  An object is then taken
    through what reading a property on it yields: [read dp] for a plain
    object, the trap for a proxy. *)

Definition Target : Type := PropKey -> JSVal.

(** Lines 45-47 over such a target. *)
Definition terminalOver (target : Target) (method : string) : Fn :=
  fun args => call (target (KStr method)) args.

(** Lines 40-48 over such a target. *)
Definition invokeChainOver (target : Target) (method : string)
    (middlewaresToApply : list Middleware) (args : list Val) : Fn :=
  reduceRight (link args) (terminalOver target method) middlewaresToApply.

(** Lines 33-51 over such a target. *)
Definition dispatchOver (target : Target) (middlewares : gmap string (list Middleware))
    (prop : PropKey) : Fn :=
  fun args =>
    match prop with
    | KSym _ => call (target prop) args
    | KStr method =>
        let middlewaresToApply := default [] (middlewares !! method) in
        invokeChainOver target method middlewaresToApply args (VStr method :: args)
    end.

Definition applyMiddlewaresOver (target : Target)
    (middlewares : gmap string (list Middleware)) : Target :=
  fun prop => JFun (dispatchOver target middlewares prop).

(** [applyMiddlewares(... applyMiddlewares(target, rn) ..., r1)]: the
    registries are listed from the outermost wrapping to the innermost. *)
Fixpoint wrapAll (target : Target) (registries : list (gmap string (list Middleware)))
    : Target :=
  match registries with
  | [] => target
  | r :: rest => applyMiddlewaresOver (wrapAll target rest) r
  end.

(** The registry with the single middleware [(next, ...args) => next(...g(args))]
    for [method]. *)
Definition layer (method : string) (g : list Val -> list Val)
    : gmap string (list Middleware) :=
  {[ method := [spied 0 (rewriting g)] ]}.

(** What the wrappings [layer method g], one per element of [gs], report on
    the way down. *)
Fixpoint layer_descent (args : list Val) (gs : list (list Val -> list Val))
    : list Event :=
  match gs with
  | [] => []
  | g :: rest => EMw 0 args :: ENext 0 (g args) :: layer_descent (g args) rest
  end.

(** ** Counting events *)

Definition count_events (p : Event -> bool) (t : list Event) : nat :=
  length (List.filter p t).

Definition is_entry_of (j : nat) (ev : Event) : bool :=
  match ev with
  | EMw i _ => Nat.eqb i j
  | _ => false
  end.

Definition is_next_of (j : nat) (ev : Event) : bool :=
  match ev with
  | ENext i _ => Nat.eqb i j
  | _ => false
  end.

Definition is_base (ev : Event) : bool :=
  match ev with
  | EBase _ _ => true
  | _ => false
  end.

End Model.

(** ** The scenarios of the test suite *)

(** The world of the tests: a clock and the console. *)
Record World : Type := mkWorld {
  clock : Z;
  console : list (list Val)
}.

(** [params.data], [{...v}] and [{...fields, k: v}] on values. *)
Fixpoint assoc (k : string) (fields : list (string * Val)) : Val :=
  match fields with
  | [] => VUndefined
  | (k', v) :: rest => if String.eqb k' k then v else assoc k rest
  end.

Definition field (k : string) (v : Val) : Val :=
  match v with
  | VObj fields => assoc k fields
  | _ => VUndefined
  end.

Definition spread (v : Val) : list (string * Val) :=
  match v with
  | VObj fields => fields
  | _ => []
  end.

Fixpoint assign (k : string) (v : Val) (fields : list (string * Val))
    : list (string * Val) :=
  match fields with
  | [] => [(k, v)]
  | (k', v') :: rest =>
      if String.eqb k' k then (k', v) :: rest else (k', v') :: assign k v rest
  end.

(** Deep equality of values, as the tests use [isEqual]; fields are compared
    in the order they are listed. *)
Fixpoint isEqual (a b : Val) : bool :=
  match a, b with
  | VUndefined, VUndefined => true
  | VNull, VNull => true
  | VBool x, VBool y => Bool.eqb x y
  | VNum x, VNum y => Z.eqb x y
  | VStr x, VStr y => String.eqb x y
  | VArr xs, VArr ys =>
      (fix all2 (xs ys : list Val) : bool :=
         match xs, ys with
         | [], [] => true
         | x :: xs', y :: ys' => isEqual x y && all2 xs' ys'
         | _, _ => false
         end) xs ys
  | VObj xs, VObj ys =>
      (fix all2 (xs ys : list (string * Val)) : bool :=
         match xs, ys with
         | [], [] => true
         | (k, x) :: xs', (k', y) :: ys' =>
             String.eqb k k' && isEqual x y && all2 xs' ys'
         | _, _ => false
         end) xs ys
  | VError n m, VError n' m' => String.eqb n n' && String.eqb m m'
  | VResolved x, VResolved y => isEqual x y
  | VRejected x, VRejected y => isEqual x y
  | _, _ => false
  end.

(** A stand-in for the fakerest provider: every method resolves with the
    arguments it was called with, so that a result shows what the method
    received.  [supportAbortSignal] is a flag, not a method. *)
Definition echo : JSVal (W := World) :=
  method_of (fun args w => (w, Ok (VResolved (VArr args)))).

Definition baseDataProvider : Provider (W := World) :=
  {| str_props :=
       <[ "getList" := echo ]>
       (<[ "update" := echo ]>
       (<[ "supportAbortSignal" := JData (VBool true) ]> ∅));
     sym_props := <[ 0%nat := echo ]> ∅ |}.

(** A provider whose [update] rejects and whose [getList] throws. *)
Definition failingDataProvider : Provider (W := World) :=
  {| str_props :=
       <[ "update" := method_of (fun _ w => (w, Ok (VRejected (VStr "conflict")))) ]>
       (<[ "getList" := method_of (fun _ w => (w, Thrown (VStr "offline"))) ]> ∅);
     sym_props := ∅ |}.

(** [loggingMiddleware]: logs its arguments, calls [next] and drops what it
    returns. *)
Definition loggingMiddleware (method : string) : list Val -> Prog (W := World) :=
  fun args =>
    Act (fun w => ({| clock := clock w; console := (VStr method :: args) :: console w |},
                   VUndefined))
        (fun _ => CallNext args (fun r =>
           match r with
           | Ok _ => Return VUndefined
           | Thrown e => Throw e
           end)).

(** Reading a property of [undefined] or [null]. *)
Definition ReadError : Val :=
  VError "TypeError" "cannot read properties of undefined".

(** [dontUpdateMainResourceMiddleware]: resolves with the previous data,
    without calling [next], when a post is updated with unchanged data. *)
Definition dontUpdateMainResourceMiddleware : list Val -> Prog (W := World) :=
  fun args =>
    let resource := nth 0 args VUndefined in
    let params := nth 1 args VUndefined in
    if negb (isEqual resource (VStr "posts")) then
      CallNext [resource; params] Settle
    else
      match params with
      | VUndefined | VNull => Throw ReadError
      | _ =>
          if isEqual (field "data" params) (field "previousData" params) then
            Return (VResolved (VObj [("data", field "previousData" params)]))
          else CallNext [resource; params] Settle
      end.

(** The arguments [auditLogMiddleware] passes on: [params.data] gains
    [updatedAt]. *)
Definition stamped (now : Val) (args : list Val) : list Val :=
  let resource := nth 0 args VUndefined in
  let params := nth 1 args VUndefined in
  [resource;
   VObj (assign "data" (VObj (assign "updatedAt" now (spread (field "data" params))))
           (spread params))].

(** [auditLogMiddleware]: reads the clock and calls [next] with the stamped
    arguments. *)
Definition auditLogMiddleware : list Val -> Prog (W := World) :=
  fun args =>
    match nth 1 args VUndefined with
    | VUndefined | VNull => Throw ReadError
    | _ =>
        Act (fun w => (w, VNum (clock w)))
            (fun now => CallNext (stamped now args) Settle)
    end.

(** A middleware that delegates unchanged: [(next, ...args) => next(...args)]. *)
Definition passThrough : list Val -> Prog (W := World) :=
  rewriting (fun args => args).

(** The arguments of the tests. *)
Definition post : Val := VObj [("id", VNum 1); ("title", VStr "Hello, world!")].

Definition updateParams : Val :=
  VObj [("id", VNum 1); ("data", post); ("previousData", post)].

Definition noon : World := {| clock := 1200; console := [] |}.

(** The registries of the tests, and variations on them. *)
Definition noMiddlewares : gmap string (list (Middleware (W := World))) := ∅.

Definition twoLoggers : gmap string (list (Middleware (W := World))) :=
  {[ "getList" := spied_from 0 [loggingMiddleware "getList"; loggingMiddleware "getList"] ]}.

Definition sameSpyTwice : gmap string (list (Middleware (W := World))) :=
  {[ "getList" := [spied 0 (loggingMiddleware "getList");
                   spied 0 (loggingMiddleware "getList")] ]}.

Definition bypassedUpdate : gmap string (list (Middleware (W := World))) :=
  {[ "update" := spied_from 0 [dontUpdateMainResourceMiddleware] ]}.


Definition auditedThenPassed : gmap string (list (Middleware (W := World))) :=
  {[ "update" := spied_from 0 [auditLogMiddleware; passThrough] ]}.

Definition auditedThenGuarded : gmap string (list (Middleware (W := World))) :=
  {[ "update" := [spied 0 auditLogMiddleware;
                  spied 1 dontUpdateMainResourceMiddleware] ]}.

(** A middleware that throws. *)
Definition refusing : Middleware (W := World) :=
  fun _ _ => throw (VStr "refused").

(** [update] behind a middleware that delegates unchanged; behind one that
    stamps and one that delegates the arguments it received; behind one that
    delegates and one that throws; and the same for [getList] and for
    [delete], which the providers above lack. *)
Definition unchanged (args : list Val) : list Val := args.

Definition passedUpdate : gmap string (list (Middleware (W := World))) :=
  {[ "update" := spied_from 0 (map rewriting [unchanged]) ]}.

Definition stampedThenPassed : gmap string (list (Middleware (W := World))) :=
  {[ "update" := spied_from 0 (map rewriting ([stamped (VNum 7)] ++ [unchanged])) ]}.

Definition passedThenRefused : gmap string (list (Middleware (W := World))) :=
  {[ "update" := spied_from 0 (map rewriting [unchanged]) ++ [refusing] ]}.

Definition passedGetList : gmap string (list (Middleware (W := World))) :=
  {[ "getList" := spied_from 0 (map rewriting [unchanged]) ]}.

Definition passedDelete : gmap string (list (Middleware (W := World))) :=
  {[ "delete" := spied_from 0 (map rewriting [unchanged]) ]}.

(** * Properties *)

Section Properties.
Context {W : Type}.
Implicit Types (dp target : Provider (W := W)).
Implicit Types (mws : gmap string (list (Middleware (W := W)))).
Implicit Types (T next : Fn (W := W)).
Implicit Types (p : Prog (W := W)).
Implicit Types (args b : list Val) (w : W).

(** ** The fold *)

Lemma reduceRight_nil {A B} (cb : B -> A -> B) (init : B) :
  reduceRight cb init [] = init.
Proof. reflexivity. Qed.

Lemma reduceRight_cons {A B} (cb : B -> A -> B) (init : B) (x : A) (l : list A) :
  reduceRight cb init (x :: l) = cb (reduceRight cb init l) x.
Proof.
  unfold reduceRight. simpl rev. rewrite fold_left_app. reflexivity.
Qed.

Lemma reduceRight_app {A B} (cb : B -> A -> B) (init : B) (l1 l2 : list A) :
  reduceRight cb init (l1 ++ l2) = reduceRight cb (reduceRight cb init l2) l1.
Proof.
  induction l1 as [|x l1 IH]; [reflexivity|].
  rewrite <- app_comm_cons, !reduceRight_cons, IH. reflexivity.
Qed.

Lemma invokeChain_nil target method args :
  invokeChain target method [] args = terminal target method.
Proof. reflexivity. Qed.

Lemma invokeChain_cons target method (m : Middleware) rest args :
  invokeChain target method (m :: rest) args
  = link args (invokeChain target method rest args) m.
Proof. unfold invokeChain. apply reduceRight_cons. Qed.

Lemma invokeChain_app target method (l1 l2 : list Middleware) args :
  invokeChain target method (l1 ++ l2) args
  = reduceRight (link args) (invokeChain target method l2 args) l1.
Proof. unfold invokeChain. apply reduceRight_app. Qed.

(** With no middleware to apply, the call reaches the base method with the
    method name in front of the caller's arguments. *)
Lemma dispatch_unconfigured dp mws method args w :
  default [] (mws !! method) = [] ->
  dispatch dp mws (KStr method) args w
  = call (read dp (KStr method)) (VStr method :: args) w.
Proof. intros H. unfold dispatch. rewrite H. reflexivity. Qed.

Lemma dispatch_listed dp mws method l args w :
  mws !! method = Some l ->
  dispatch dp mws (KStr method) args w
  = invokeChain dp method l args (VStr method :: args) w.
Proof. intros H. unfold dispatch. rewrite H. reflexivity. Qed.

Lemma dispatch_configured dp mws method (m : Middleware) rest args w :
  default [] (mws !! method) = m :: rest ->
  dispatch dp mws (KStr method) args w
  = m (invokeChain dp method rest args) args w.
Proof.
  intros H. unfold dispatch. rewrite H. cbv zeta.
  rewrite invokeChain_cons. reflexivity.
Qed.

(** ** Running a middleware body *)

Lemma interp_Settle i next (o : Res Val) w :
  interp i next (Settle o) w = {| trace := []; world := w; outcome := o |}.
Proof. destruct o; reflexivity. Qed.

Lemma interp_rewriting i next g args w :
  interp i next (rewriting g args) w
  = observed (ENext i (g args)) (next (g args) w).
Proof.
  unfold rewriting. cbn [interp]. rewrite interp_Settle.
  unfold observed, after. cbn. rewrite app_nil_r. reflexivity.
Qed.

(** A body that never calls [next] runs the same against any [next], and
    reports nothing. *)
Lemma interp_never_calls i j next next' p :
  never_calls p -> forall w, interp i next p w = interp j next' p w.
Proof. induction 1; intros w; cbn [interp]; auto. Qed.

Lemma interp_never_calls_trace i next p :
  never_calls p -> forall w, trace (interp i next p w) = [].
Proof. induction 1; intros w; cbn [interp]; auto. Qed.

(** A body that calls [next] once reports that call, then what the callee
    reports, and nothing more. *)
Lemma interp_calls_once i next p :
  calls_once p -> forall w,
  exists b w', trace (interp i next p w) = ENext i b :: trace (next b w').
Proof.
  induction 1 as [b k Hk | f k _ IH]; intros w; cbn [interp].
  - exists b, w. cbn. rewrite (interp_never_calls_trace _ _ (Hk _)).
    rewrite app_nil_r. reflexivity.
  - apply IH.
Qed.

(** The events of a layer are relayed calls of its [next]. *)
Lemma interp_relayed i next p :
  forall w,
  relayed i (fun b seg => exists w', seg = trace (next b w'))
          (trace (interp i next p w)).
Proof.
  induction p as [v | e | f k IH | b k IH]; intros w; cbn [interp].
  - constructor.
  - constructor.
  - apply IH.
  - cbn. constructor; [eauto | apply IH].
Qed.

Lemma relayed_mono i (inner inner' : list Val -> list Event -> Prop) t :
  (forall b seg, inner b seg -> inner' b seg) ->
  relayed i inner t -> relayed i inner' t.
Proof. intros Hsub. induction 1; constructor; auto. Qed.

(** Where an event sits in a concatenation. *)
Lemma app_eq_middle {A} (l1 l2 t1 t2 : list A) (e : A) :
  l1 ++ l2 = t1 ++ e :: t2 ->
  (exists u, l1 = t1 ++ e :: u /\ t2 = u ++ l2)
  \/ (exists u, t1 = l1 ++ u /\ l2 = u ++ e :: t2).
Proof.
  revert t1. induction l1 as [|x l1 IH]; intros t1 H.
  - right. exists t1. auto.
  - destruct t1 as [|y t1]; cbn in H; injection H as -> H.
    + left. exists l1. subst. auto.
    + destruct (IH _ H) as [(u & -> & ->) | (u & -> & ->)].
      * left. exists u. auto.
      * right. exists u. auto.
Qed.

(** Every event of a layer is a reported call of [next], or lies in what a
    callee reported right after such a call. *)
Lemma relayed_split i (inner : list Val -> list Event -> Prop) t :
  relayed i inner t ->
  forall t1 e t2, t = t1 ++ e :: t2 ->
  (exists b seg rest, e = ENext i b /\ inner b seg /\ t2 = seg ++ rest)
  \/ (exists b front u1 u2 rest,
        inner b (u1 ++ e :: u2)
        /\ t1 = front ++ ENext i b :: u1 /\ t2 = u2 ++ rest).
Proof.
  induction 1 as [| b seg rest Hseg Hrest IH]; intros t1 e t2 E.
  - destruct t1; discriminate.
  - destruct t1 as [|x t1]; cbn in E; injection E as <- E.
    + left. exists b, seg, rest. subst. auto.
    + apply app_eq_middle in E.
      destruct E as [(u & -> & ->) | (u & -> & E)].
      * right. exists b, [], t1, u, rest. auto.
      * destruct (IH _ _ _ E) as
          [(b' & seg' & rest' & -> & Hin & ->)
          |(b' & front & u1 & u2 & rest' & Hin & -> & ->)].
        -- left. exists b', seg', rest'. auto.
        -- right. exists b', (ENext i b :: seg ++ front), u1, u2, rest'.
           repeat split; auto.
           cbn. rewrite <- app_assoc. reflexivity.
Qed.

(** ** Spied providers *)

Lemma read_spyOn dp prop :
  read (spyOn dp) prop = spyOnVal prop (read dp prop).
Proof.
  destruct prop as [s | n]; cbn; rewrite map_lookup_imap.
  - destruct (str_props dp !! s); reflexivity.
  - destruct (sym_props dp !! n); reflexivity.
Qed.

Lemma terminal_spyOn_trace dp method b w :
  silent dp ->
  trace (terminal (spyOn dp) method b w) = base_report dp method b.
Proof.
  intros Hs. unfold terminal, base_report. rewrite read_spyOn.
  destruct (read dp (KStr method)) as [f | d] eqn:E; cbn.
  - rewrite (Hs _ _ b w E). reflexivity.
  - reflexivity.
Qed.

Lemma terminal_spyOn_fun dp method f b w :
  read dp (KStr method) = JFun f ->
  terminal (spyOn dp) method b w
  = observed (EBase (KStr method) b) (f b w).
Proof.
  intros E. unfold terminal. rewrite read_spyOn, E. reflexivity.
Qed.

Lemma terminal_missing dp method b w :
  str_props dp !! method = None ->
  terminal dp method b w = throw TypeError w.
Proof. intros E. unfold terminal. cbn. rewrite E. reflexivity. Qed.

(** ** Chains of spied middlewares *)

Lemma spied_from_app i (l1 l2 : list (list Val -> Prog (W := W))) :
  spied_from i (l1 ++ l2) = spied_from i l1 ++ spied_from (i + length l1) l2.
Proof.
  revert i. induction l1 as [|m l1 IH]; intros i; cbn.
  - rewrite Nat.add_0_r. reflexivity.
  - rewrite IH, Nat.add_succ_r. reflexivity.
Qed.

(** A chain of [rewriting] middlewares reports its descent and completes as
    the step below it does on the arguments handed down. *)
Lemma chain_rewriting T args gs :
  forall i x w,
  reduceRight (link args) T (spied_from i (map rewriting gs)) x w
  = {| trace := descent i args gs ++ trace (T (handed_down x args gs) w);
       world := world (T (handed_down x args gs) w);
       outcome := outcome (T (handed_down x args gs) w) |}.
Proof.
  induction gs as [|g gs IH]; intros i x w.
  - cbn. destruct (T x w); reflexivity.
  - cbn [map spied_from]. rewrite reduceRight_cons.
    unfold link at 1. unfold spied. rewrite interp_rewriting.
    rewrite IH. reflexivity.
Qed.

(** Every event of a chain numbered from [i], run over a step [T], is an
    entry [EMw j args] with [i <= j], a call of [next], or an event of [T]. *)
Lemma relayed_In i (inner : list Val -> list Event -> Prop) t ev :
  relayed i inner t -> In ev t ->
  (exists b, ev = ENext i b) \/ (exists b seg, inner b seg /\ In ev seg).
Proof.
  induction 1 as [| b seg rest Hseg Hrest IH]; intros Hin; [destruct Hin|].
  destruct Hin as [<- | Hin]; [left; eauto|].
  apply in_app_or in Hin. destruct Hin as [Hin | Hin]; [right; eauto | auto].
Qed.

Lemma chain_entries T args bodies :
  (forall b w j a, ~ In (EMw j a) (trace (T b w))) ->
  forall i x w j a,
  In (EMw j a) (trace (reduceRight (link args) T (spied_from i bodies) x w)) ->
  a = args /\ i <= j < i + length bodies.
Proof.
  intros HT. induction bodies as [|body bodies IH]; intros i x w j a Hin.
  - cbn in Hin. exfalso. exact (HT _ _ _ _ Hin).
  - cbn [spied_from] in Hin. rewrite reduceRight_cons in Hin.
    unfold link at 1, spied in Hin. cbn [trace observed] in Hin.
    destruct Hin as [E | Hin].
    + injection E as <- <-. cbn [length]. split; [reflexivity | lia].
    + eapply relayed_In in Hin; [|apply interp_relayed].
      destruct Hin as [(b & E) | (b & seg & (w' & ->) & Hin)]; [discriminate|].
      apply IH in Hin. cbn [length]. destruct Hin as [-> ?]. split; [reflexivity | lia].
Qed.

Lemma terminal_spyOn_no_entry dp method :
  silent dp ->
  forall b w j a, ~ In (EMw j a) (trace (terminal (spyOn dp) method b w)).
Proof.
  intros Hs b w j a. rewrite terminal_spyOn_trace by assumption.
  unfold base_report. destruct (read dp (KStr method)); cbn; [|tauto].
  intros [E | []]. discriminate.
Qed.

(** The events of a chain of two middlewares over a spied provider. *)
Lemma two_layers dp method (m1 m2 : list Val -> Prog) args x w :
  silent dp ->
  exists t0,
    trace (invokeChain (spyOn dp) method [spied 0 m1; spied 1 m2] args x w)
    = EMw 0 args :: t0
    /\ relayed 0
         (fun _ seg => exists t1,
            seg = EMw 1 args :: t1
            /\ relayed 1 (fun c seg' => seg' = base_report dp method c) t1)
         t0.
Proof.
  intros Hs. rewrite !invokeChain_cons, invokeChain_nil.
  unfold link at 1, spied at 1. cbn [trace observed].
  eexists. split; [reflexivity|].
  eapply relayed_mono; [|apply interp_relayed].
  intros b seg (w' & ->). unfold link, spied. cbn [trace observed].
  eexists. split; [reflexivity|].
  eapply relayed_mono; [|apply interp_relayed].
  intros c seg (w'' & ->). apply terminal_spyOn_trace. assumption.
Qed.

(** Where an event of such a chain sits: it is a call by the outer
    middleware of its [next], followed by the entry of the inner one; or
    that entry, preceded by such a call; or a call by the inner middleware
    of its [next], followed by the report of the base method; or that
    report, preceded by such a call with the same arguments. *)
Lemma two_layers_locate dp method args t0 :
  relayed 0
    (fun _ seg => exists t1,
       seg = EMw 1 args :: t1
       /\ relayed 1 (fun c seg' => seg' = base_report dp method c) t1)
    t0 ->
  forall t1 e t2, t0 = t1 ++ e :: t2 ->
  (exists b t3, e = ENext 0 b /\ t2 = EMw 1 args :: t3)
  \/ (exists front b, e = EMw 1 args /\ t1 = front ++ [ENext 0 b])
  \/ (exists c t3, e = ENext 1 c /\ t2 = base_report dp method c ++ t3)
  \/ (exists front c f,
        e = EBase (KStr method) c /\ t1 = front ++ [ENext 1 c]
        /\ read dp (KStr method) = JFun f).
Proof.
  intros H0 t1 e t2 E.
  destruct (relayed_split H0 _ _ _ E)
    as [(b & seg & rest & -> & (tl & -> & _) & ->)
       | (b & front & u1 & u2 & rest & (tl & Eseg & H1) & -> & ->)].
  { left. eauto. }
  destruct u1 as [|z u1]; injection Eseg as -> Eseg.
  { right. left. eauto. }
  symmetry in Eseg.
  destruct (relayed_split H1 _ _ _ Eseg)
    as [(c & seg & rest' & -> & -> & ->)
       | (c & front' & v1 & v2 & rest' & Hin & -> & ->)].
  { right. right. left. rewrite <- app_assoc. eauto. }
  right. right. right. unfold base_report in Hin.
  destruct (read dp (KStr method)) as [f|d]; [|destruct v1; discriminate].
  destruct v1 as [|y v1]; [|destruct v1; discriminate].
  injection Hin as -> ->.
  exists (front ++ ENext 0 b :: EMw 1 args :: front'), c, f.
  repeat split. rewrite <- !app_assoc. reflexivity.
Qed.

Lemma silent_of_quiet dp :
  map_Forall (fun _ v => quiet v) (str_props dp) ->
  map_Forall (fun _ v => quiet v) (sym_props dp) ->
  silent dp.
Proof.
  intros Hstr Hsym prop f args w E. destruct prop as [s | n]; cbn in E.
  - destruct (str_props dp !! s) as [v|] eqn:L; cbn in E; [|discriminate].
    subst v. exact (Hstr _ _ L args w).
  - destruct (sym_props dp !! n) as [v|] eqn:L; cbn in E; [|discriminate].
    subst v. exact (Hsym _ _ L args w).
Qed.

(** ** Properties of the dispatch *)

(** C4. For an operation configured with [[m1; m2]], over any spied, silent
    base provider, any two middleware bodies and any call: [m1] is entered
    first, once, with the caller's arguments; [m2] is entered only right
    after a call by [m1] of its [next], and every such call enters [m2];
    the base method is entered only right after a call by [m2] of its
    [next], with the arguments of that call, and, when the base provider
    has the method, every such call enters it.  So the fold from the right
    runs the first-listed middleware outermost. *)
Theorem C4_first_listed_runs_outermost dp mws method
    (m1 m2 : list Val -> Prog) args w :
  silent dp ->
  mws !! method = Some [spied 0 m1; spied 1 m2] ->
  let t := trace (call (applyMiddlewares (spyOn dp) mws (KStr method)) args w) in
  (exists t', t = EMw 0 args :: t')
  /\ (forall t1 a t2, t = t1 ++ EMw 0 a :: t2 -> t1 = [])
  /\ (forall t1 a t2, t = t1 ++ EMw 1 a :: t2 ->
        a = args /\ exists t0 b, t1 = t0 ++ [ENext 0 b])
  /\ (forall t1 b t2, t = t1 ++ ENext 0 b :: t2 ->
        exists t3, t2 = EMw 1 args :: t3)
  /\ (forall t1 k c t2, t = t1 ++ EBase k c :: t2 ->
        k = KStr method /\ exists t0, t1 = t0 ++ [ENext 1 c])
  /\ (forall f t1 c t2, read dp (KStr method) = JFun f ->
        t = t1 ++ ENext 1 c :: t2 ->
        exists t3, t2 = EBase (KStr method) c :: t3).
Proof.
  intros Hs Hm t. subst t. cbn [call applyMiddlewares].
  erewrite dispatch_listed by exact Hm.
  destruct (two_layers method m1 m2 args (VStr method :: args) w Hs)
    as (t0 & -> & H0).
  pose proof (@two_layers_locate dp method args t0 H0) as L. clear H0.
  split; [eauto|].
  split; [|split; [|split; [|split]]].
  - intros t1 a t2 E. destruct t1 as [|y t1]; [reflexivity|]. exfalso.
    injection E as _ E.
    destruct (L _ _ _ E)
      as [(? & ? & ? & _) | [(? & ? & ? & _) | [(? & ? & ? & _) | (? & ? & ? & ? & _)]]];
      discriminate.
  - intros t1 a t2 E. destruct t1 as [|y t1]; [discriminate|].
    injection E as <- E.
    destruct (L _ _ _ E)
      as [(? & ? & ? & _) | [(front & b & Ee & ->) | [(? & ? & ? & _) | (? & ? & ? & ? & _)]]];
      try discriminate.
    injection Ee as ->. split; [reflexivity|].
    exists (EMw 0 args :: front), b. reflexivity.
  - intros t1 b t2 E. destruct t1 as [|y t1]; [discriminate|].
    injection E as _ E.
    destruct (L _ _ _ E)
      as [(? & t3 & _ & ->) | [(? & ? & ? & _) | [(? & ? & ? & _) | (? & ? & ? & ? & _)]]];
      try discriminate.
    eauto.
  - intros t1 k c t2 E. destruct t1 as [|y t1]; [discriminate|].
    injection E as <- E.
    destruct (L _ _ _ E)
      as [(? & ? & ? & _) | [(? & ? & ? & _) | [(? & ? & ? & _) | (front & c' & f & Ee & -> & _)]]];
      try discriminate.
    injection Ee as -> ->. split; [reflexivity|].
    exists (EMw 0 args :: front). reflexivity.
  - intros f t1 c t2 Hf E. destruct t1 as [|y t1]; [discriminate|].
    injection E as _ E.
    destruct (L _ _ _ E)
      as [(? & ? & ? & _) | [(? & ? & ? & _) | [(c' & t3 & Ee & ->) | (? & ? & ? & ? & _)]]];
      try discriminate.
    injection Ee as <-. unfold base_report. rewrite Hf. cbn. eauto.
Qed.

(** Below a prefix of [rewriting] middlewares, a call reports the descent
    through them and completes as the rest of the chain does. *)
Lemma dispatch_below_rewriting dp mws method gs (rest : list Middleware) args w :
  mws !! method = Some (spied_from 0 (map rewriting gs) ++ rest) ->
  let inner :=
    invokeChain dp method rest args
      (handed_down (VStr method :: args) args gs) w in
  dispatch dp mws (KStr method) args w
  = {| trace := descent 0 args gs ++ trace inner;
       world := world inner;
       outcome := outcome inner |}.
Proof.
  intros Hm inner. erewrite dispatch_listed by exact Hm.
  rewrite invokeChain_app. apply chain_rewriting.
Qed.

Lemma handed_down_snoc x args gs g :
  handed_down x args (gs ++ [g]) = g args.
Proof. revert x. induction gs as [|g' gs IH]; intros x; cbn; auto. Qed.

Lemma descent_In i args gs ev :
  In ev (descent i args gs) ->
  exists j, i <= j < i + length gs
    /\ (ev = EMw j args \/ exists b, ev = ENext j b).
Proof.
  revert i. induction gs as [|g gs IH]; intros i Hin; [destruct Hin|].
  cbn [descent length] in *.
  destruct Hin as [<- | [<- | Hin]].
  - exists i. split; [lia | auto].
  - exists i. split; [lia | eauto].
  - destruct (IH _ Hin) as (j & Hj & Hev). exists j. split; [lia | auto].
Qed.

(** C2 (amended). For every operation with a non-empty middleware list,
    over any spied, silent base provider: the first event of a call is the
    entry of the first-listed middleware with exactly the caller's
    arguments, and every middleware that is entered receives, after [next],
    exactly the caller's arguments; the operation name is not among them. *)
Theorem C2_middlewares_receive_the_caller_arguments dp mws method
    (body : list Val -> Prog) bodies args w :
  silent dp ->
  mws !! method = Some (spied_from 0 (body :: bodies)) ->
  let t := trace (call (applyMiddlewares (spyOn dp) mws (KStr method)) args w) in
  (exists t', t = EMw 0 args :: t')
  /\ (forall i a, In (EMw i a) t -> a = args /\ i < length (body :: bodies)).
Proof.
  intros Hs Hm t. subst t. cbn [call applyMiddlewares].
  erewrite dispatch_listed by exact Hm. split.
  - cbn [spied_from]. rewrite invokeChain_cons. unfold link, spied.
    cbn [trace observed]. eauto.
  - intros i a Hin. unfold invokeChain in Hin.
    apply chain_entries in Hin; [|apply terminal_spyOn_no_entry; assumption].
    destruct Hin as [-> ?]. split; [reflexivity | lia].
Qed.

(** C5. Over any spied, silent base provider, for a middleware [m] listed
    below middlewares that delegate and return what their [next] returns:
    at arguments where [m] completes without calling its [next], the call
    reports the descent to [m] and the entry of [m] and nothing else, so no
    middleware listed after [m] and no base method is entered, and the
    caller receives the completion of [m] itself; at arguments where [m],
    listed last, delegates and returns what its [next] returns, the base
    method is entered with the arguments [m] passes and the caller receives
    the completion of the base method. *)
Theorem C5_bypass_skips_downstream_and_base dp method gs args w :
  silent dp ->
  (forall mws (m : list Val -> Prog) post,
      mws !! method = Some (spied_from 0 (map rewriting gs ++ m :: post)) ->
      never_calls (m args) ->
      let r := call (applyMiddlewares (spyOn dp) mws (KStr method)) args w in
      trace r = descent 0 args gs ++ [EMw (length gs) args]
      /\ (forall k a, ~ In (EBase k a) (trace r))
      /\ (forall i a, In (EMw i a) (trace r) -> i <= length gs)
      /\ (forall next,
            outcome r = outcome (interp (length gs) next (m args) w)
            /\ world r = world (interp (length gs) next (m args) w)))
  /\ (forall mws (m : list Val -> Prog) b f,
        mws !! method = Some (spied_from 0 (map rewriting gs ++ [m])) ->
        m args = CallNext b Settle ->
        read dp (KStr method) = JFun f ->
        let r := call (applyMiddlewares (spyOn dp) mws (KStr method)) args w in
        trace r
        = descent 0 args gs
          ++ [EMw (length gs) args; ENext (length gs) b; EBase (KStr method) b]
        /\ outcome r = outcome (f b w)
        /\ world r = world (f b w)).
Proof.
  intros Hs.
  assert (A : forall mws (m : list Val -> Prog) post,
      mws !! method = Some (spied_from 0 (map rewriting gs ++ m :: post)) ->
      call (applyMiddlewares (spyOn dp) mws (KStr method)) args w
      = {| trace := descent 0 args gs
                    ++ EMw (length gs) args
                       :: trace (interp (length gs)
                                   (invokeChain (spyOn dp) method
                                      (spied_from (S (length gs)) post) args)
                                   (m args) w);
           world := world (interp (length gs)
                             (invokeChain (spyOn dp) method
                                (spied_from (S (length gs)) post) args)
                             (m args) w);
           outcome := outcome (interp (length gs)
                             (invokeChain (spyOn dp) method
                                (spied_from (S (length gs)) post) args)
                             (m args) w) |}).
  { intros mws m post Hm. cbn [call applyMiddlewares].
    rewrite spied_from_app, length_map in Hm. cbn [Nat.add spied_from] in Hm.
    erewrite dispatch_below_rewriting by exact Hm.
    rewrite invokeChain_cons. reflexivity. }
  split.
  - intros mws m post Hm Hn r. subst r. rewrite (A _ _ _ Hm).
    cbn [trace world outcome].
    rewrite (interp_never_calls_trace _ _ Hn).
    split; [reflexivity|]. split; [|split].
    + intros k a Hin. apply in_app_or in Hin. destruct Hin as [Hin | [E | []]].
      * apply descent_In in Hin.
        destruct Hin as (j & _ & [E | (b & E)]); discriminate.
      * discriminate.
    + intros i a Hin. apply in_app_or in Hin. destruct Hin as [Hin | [E | []]].
      * apply descent_In in Hin.
        destruct Hin as (j & Hj & [E | (b & E)]); [|discriminate].
        injection E as <-. cbn in Hj. lia.
      * injection E as <-. lia.
    + intros next.
      rewrite (interp_never_calls (length gs) (length gs) _ next Hn).
      split; reflexivity.
  - intros mws m b f Hm Hb Hf r. subst r. rewrite (A _ _ _ Hm).
    cbn [trace world outcome spied_from]. rewrite invokeChain_nil, Hb.
    change (CallNext b Settle) with (rewriting (W := W) (fun _ => b) args).
    rewrite interp_rewriting. erewrite terminal_spyOn_fun by exact Hf.
    cbn [trace world outcome observed]. rewrite (Hs _ _ b w Hf).
    repeat split.
Qed.

(** C6. The proxy has no handler of its own.  Each function it creates
    completes exactly as the function it calls: the wrapped operation as the
    first-listed middleware, the [next] handed to a middleware as the
    middleware listed after it, the terminal step as the base method.  So,
    below any number of enclosing middlewares that delegate and return what
    their [next] returns, the caller observes exactly the completion of the
    layer below them, be it a middleware (any function) or, at the end of the
    chain, the base method; in particular an exception thrown there is thrown
    to the caller, and a rejected promise returned there is returned to the
    caller, with the same error value. *)
Theorem C6_failures_reach_the_caller_unchanged dp method gs args w :
  (forall mws (m : Middleware) rest,
      mws !! method = Some (m :: rest) ->
      call (applyMiddlewares dp mws (KStr method)) args w
      = m (invokeChain dp method rest args) args w)
  /\ (forall (m : Middleware) post x w',
        invokeChain dp method (m :: post) args x w'
        = m (invokeChain dp method post args) args w')
  /\ (forall x w',
        invokeChain dp method [] args x w' = call (read dp (KStr method)) x w')
  /\ (forall mws (m : Middleware) post,
        mws !! method = Some (spied_from 0 (map rewriting gs) ++ m :: post) ->
        let r := call (applyMiddlewares dp mws (KStr method)) args w in
        let inner := m (invokeChain dp method post args) args w in
        outcome r = outcome inner
        /\ (forall e, outcome inner = Thrown e -> outcome r = Thrown e)
        /\ (forall e, outcome inner = Ok (VRejected e) ->
                      outcome r = Ok (VRejected e)))
  /\ (forall mws,
        default [] (mws !! method) = spied_from 0 (map rewriting gs) ->
        let r := call (applyMiddlewares dp mws (KStr method)) args w in
        let inner :=
          call (read dp (KStr method))
               (handed_down (VStr method :: args) args gs) w in
        outcome r = outcome inner
        /\ (forall e, outcome inner = Thrown e -> outcome r = Thrown e)
        /\ (forall e, outcome inner = Ok (VRejected e) ->
                      outcome r = Ok (VRejected e))).
Proof.
  split; [|split; [|split; [|split]]].
  - intros mws m rest Hm. cbn [call applyMiddlewares].
    apply dispatch_configured. rewrite Hm. reflexivity.
  - intros m post x w'. rewrite invokeChain_cons. reflexivity.
  - reflexivity.
  - intros mws m post Hm r inner.
    assert (E : outcome r = outcome inner).
    { subst r inner. cbn [call applyMiddlewares].
      erewrite dispatch_below_rewriting by exact Hm.
      rewrite invokeChain_cons. reflexivity. }
    split; [exact E|]. split; intros e He; congruence.
  - intros mws Hm r inner.
    assert (E : outcome r = outcome inner).
    { subst r inner. cbn [call applyMiddlewares]. unfold dispatch.
      rewrite Hm. cbv zeta. unfold invokeChain.
      rewrite chain_rewriting. reflexivity. }
    split; [exact E|]. split; intros e He; congruence.
Qed.

(** C7. Whether or not the base provider has the operation, reading it on
    the wrapped provider yields a callable: nothing looks at the registry
    or the base provider before a call.  For an operation that the base
    provider lacks, the terminal step throws the call-on-non-function
    error; a call whose middlewares all delegate enters each of them and
    then fails with that error, and so does a call with no middleware; a
    call whose first middleware completes without calling its [next] does
    not reach the terminal step and completes as that middleware does. *)
Theorem C7_missing_operation_fails_at_call_time dp mws method :
  str_props dp !! method = None ->
  (exists f, applyMiddlewares dp mws (KStr method) = JFun f)
  /\ (forall b w, terminal dp method b w = throw TypeError w)
  /\ (forall gs args w,
        default [] (mws !! method) = spied_from 0 (map rewriting gs) ->
        call (applyMiddlewares dp mws (KStr method)) args w
        = {| trace := descent 0 args gs; world := w;
             outcome := Thrown TypeError |})
  /\ (forall (body : list Val -> Prog) rest args w next,
        mws !! method = Some (spied 0 body :: rest) ->
        never_calls (body args) ->
        call (applyMiddlewares dp mws (KStr method)) args w
        = observed (EMw 0 args) (interp 0 next (body args) w)).
Proof.
  intros Hmiss. split; [eexists; reflexivity|].
  split; [intros b w; apply terminal_missing; assumption|]. split.
  - intros gs args w Hm. cbn [call applyMiddlewares]. unfold dispatch.
    rewrite Hm. cbv zeta. unfold invokeChain. rewrite chain_rewriting.
    rewrite terminal_missing by assumption. cbn. rewrite app_nil_r.
    reflexivity.
  - intros body rest args w next Hm Hn. cbn [call applyMiddlewares].
    erewrite dispatch_listed by exact Hm. rewrite invokeChain_cons.
    unfold link, spied. f_equal. apply interp_never_calls. assumption.
Qed.

(** C8 (amended). Reading any property of the wrapped provider, whatever
    the key and whatever the base provider holds under it, yields a
    callable; for a symbol key, calling it calls the base provider's
    property of that key with exactly the caller's arguments and completes
    as that call does, which is the call-on-non-function error when the
    base property is not a function. *)
Theorem C8_every_property_reads_as_a_callable dp mws :
  (forall prop, exists f, applyMiddlewares dp mws prop = JFun f)
  /\ (forall n args w,
        call (applyMiddlewares dp mws (KSym n)) args w
        = call (read dp (KSym n)) args w)
  /\ (forall n d args w,
        read dp (KSym n) = JData d ->
        call (applyMiddlewares dp mws (KSym n)) args w = throw TypeError w).
Proof.
  split; [intros prop; eexists; reflexivity|].
  split; [reflexivity|].
  intros n d args w E. cbn [call applyMiddlewares]. unfold dispatch.
  rewrite E. reflexivity.
Qed.

(** C9. When the same middleware is listed twice for an operation and its
    body calls its [next] exactly once, a single call over a spied, silent
    base provider enters it exactly twice: the first occurrence is entered,
    calls its [next], which enters the second occurrence, which calls its
    [next], which is the terminal step. *)
Theorem C9_listed_twice_runs_twice dp mws method (m : list Val -> Prog) args w :
  silent dp ->
  mws !! method = Some [spied 0 m; spied 0 m] ->
  calls_once (m args) ->
  let t := trace (call (applyMiddlewares (spyOn dp) mws (KStr method)) args w) in
  length (List.filter is_entry t) = 2
  /\ exists b c,
       t = EMw 0 args :: ENext 0 b :: EMw 0 args :: ENext 0 c
           :: base_report dp method c.
Proof.
  intros Hs Hm Ho t.
  assert (E : exists b c,
            t = EMw 0 args :: ENext 0 b :: EMw 0 args :: ENext 0 c
                :: base_report dp method c).
  { subst t. cbn [call applyMiddlewares].
    erewrite dispatch_listed by exact Hm.
    rewrite !invokeChain_cons, invokeChain_nil.
    unfold link at 1, spied at 1. cbn [trace observed].
    destruct (interp_calls_once 0
                (link args (terminal (spyOn dp) method) (spied 0 m)) Ho w)
      as (b & w1 & ->).
    unfold link, spied. cbn [trace observed].
    destruct (interp_calls_once 0 (terminal (spyOn dp) method) Ho w1)
      as (c & w2 & ->).
    rewrite terminal_spyOn_trace by assumption. eauto. }
  split; [|exact E]. destruct E as (b & c & ->). cbn.
  unfold base_report. destruct (read dp (KStr method)); reflexivity.
Qed.

(** C10. In a non-empty chain every middleware, first or not, is applied to
    exactly the caller's arguments, its [next] being the chain of the
    middlewares listed after it; that [next], when middlewares remain,
    completes the same whatever arguments it is called with; the terminal
    step calls the base method with exactly the arguments it is handed.
    So, over a spied, silent base provider, below middlewares that rewrite
    the arguments and delegate, each middleware is entered with the
    caller's arguments and the base method receives the arguments passed by
    the innermost one, without the operation name in front. *)
Theorem C10_only_the_innermost_arguments_reach_the_base dp method args :
  (forall (m : Middleware) rest x w,
      invokeChain dp method (m :: rest) args x w
      = m (invokeChain dp method rest args) args w)
  /\ (forall (m : Middleware) rest x y w,
        invokeChain dp method (m :: rest) args x w
        = invokeChain dp method (m :: rest) args y w)
  /\ (forall x w,
        invokeChain dp method [] args x w = call (read dp (KStr method)) x w)
  /\ (forall mws gs g f w,
        silent dp ->
        read dp (KStr method) = JFun f ->
        mws !! method = Some (spied_from 0 (map rewriting (gs ++ [g]))) ->
        call (applyMiddlewares (spyOn dp) mws (KStr method)) args w
        = {| trace := descent 0 args (gs ++ [g]) ++ [EBase (KStr method) (g args)];
             world := world (f (g args) w);
             outcome := outcome (f (g args) w) |}).
Proof.
  split; [intros; rewrite invokeChain_cons; reflexivity|].
  split; [intros; rewrite !invokeChain_cons; reflexivity|].
  split; [reflexivity|].
  intros mws gs g f w Hs Hf Hm. cbn [call applyMiddlewares].
  erewrite dispatch_listed by exact Hm. unfold invokeChain.
  rewrite chain_rewriting, handed_down_snoc.
  erewrite terminal_spyOn_fun by exact Hf. cbn [trace world outcome observed].
  rewrite (Hs _ _ (g args) w Hf). reflexivity.
Qed.

End Properties.

(** * The scenarios, evaluated *)

Lemma silent_baseDataProvider : silent baseDataProvider.
Proof.
  apply silent_of_quiet; cbn;
    repeat (apply map_Forall_insert_2; [cbn; auto|]); apply map_Forall_empty.
Qed.

Lemma silent_failingDataProvider : silent failingDataProvider.
Proof.
  apply silent_of_quiet; cbn;
    repeat (apply map_Forall_insert_2; [cbn; auto|]); apply map_Forall_empty.
Qed.

(** C1 does not hold of the code.  With no middleware configured for
    [getList], the call [getList("posts")] on the wrapped provider enters the
    base method with the arguments ["getList", "posts"], where the direct call
    enters it with ["posts"], and the caller receives a different result. *)
Theorem C1_unconfigured_call_passes_the_method_name :
  let viaProxy :=
    call (applyMiddlewares (spyOn baseDataProvider) noMiddlewares (KStr "getList"))
         [VStr "posts"] noon in
  let direct :=
    call (read (spyOn baseDataProvider) (KStr "getList")) [VStr "posts"] noon in
  trace viaProxy = [EBase (KStr "getList") [VStr "getList"; VStr "posts"]]
  /\ trace direct = [EBase (KStr "getList") [VStr "posts"]]
  /\ outcome viaProxy = Ok (VResolved (VArr [VStr "getList"; VStr "posts"]))
  /\ outcome direct = Ok (VResolved (VArr [VStr "posts"]))
  /\ outcome viaProxy <> outcome direct.
Proof. vm_compute. repeat split; congruence. Qed.

(** C2, as stated, fails: with [getList] configured with two logging
    middlewares, the call [getList("posts")] enters a middleware whose
    arguments are not ["getList", "posts"]. *)
Lemma C2_counterexample :
  ~ (forall i a,
       In (EMw i a)
          (trace (call (applyMiddlewares (spyOn baseDataProvider) twoLoggers
                          (KStr "getList")) [VStr "posts"] noon)) ->
       a = VStr "getList" :: [VStr "posts"]).
Proof.
  intros H. specialize (H 0%nat [VStr "posts"]).
  assert (E : [VStr "posts"] = [VStr "getList"; VStr "posts"])
    by (apply H; vm_compute; auto).
  discriminate E.
Qed.

(** C3 does not hold of the code.  With [update] configured with the
    audit-log middleware followed by a middleware that delegates unchanged,
    the audit-log middleware calls its [next] with the stamped arguments, and
    the base method is entered with the caller's arguments, not the stamped
    ones. *)
Theorem C3_rewrite_is_lost_above_another_middleware :
  let original := [VStr "posts"; updateParams] in
  let r :=
    call (applyMiddlewares (spyOn baseDataProvider) auditedThenPassed (KStr "update"))
         original noon in
  trace r
  = [EMw 0 original; ENext 0 (stamped (VNum 1200) original);
     EMw 1 original; ENext 1 original; EBase (KStr "update") original]
  /\ stamped (VNum 1200) original <> original
  /\ ~ In (EBase (KStr "update") (stamped (VNum 1200) original)) (trace r).
Proof.
  vm_compute. repeat split; try congruence.
  intros H. repeat (destruct H as [H | H]; [congruence|]). exact H.
Qed.

(** C8, as stated, fails: [supportAbortSignal] is a flag of the base
    provider, and reading it on the wrapped provider yields a function, not
    the flag. *)
Lemma C8_counterexample :
  read baseDataProvider (KStr "supportAbortSignal") = JData (VBool true)
  /\ applyMiddlewares baseDataProvider noMiddlewares (KStr "supportAbortSignal")
     <> read baseDataProvider (KStr "supportAbortSignal").
Proof. split; [reflexivity|]. vm_compute. discriminate. Qed.

(** C2 at the first test: [getList("posts")] through two logging
    middlewares. *)
Lemma C2_witness :
  silent baseDataProvider
  /\ twoLoggers !! "getList"
     = Some (spied_from 0 [loggingMiddleware "getList"; loggingMiddleware "getList"])
  /\ let t := trace (call (applyMiddlewares (spyOn baseDataProvider) twoLoggers
                             (KStr "getList")) [VStr "posts"] noon) in
     (exists t', t = EMw 0 [VStr "posts"] :: t')
     /\ (forall i a, In (EMw i a) t ->
           a = [VStr "posts"]
           /\ i < length [loggingMiddleware "getList"; loggingMiddleware "getList"]).
Proof.
  split; [exact silent_baseDataProvider|]. split; [reflexivity|].
  exact (@C2_middlewares_receive_the_caller_arguments World baseDataProvider
           twoLoggers "getList" (loggingMiddleware "getList")
           [loggingMiddleware "getList"] [VStr "posts"] noon
           silent_baseDataProvider eq_refl).
Defined.

(** C4 at an update that passes the audit-log middleware, then the guard. *)
Lemma C4_witness :
  silent baseDataProvider
  /\ auditedThenGuarded !! "update"
     = Some [spied 0 auditLogMiddleware; spied 1 dontUpdateMainResourceMiddleware]
  /\ let args := [VStr "comments"; updateParams] in
     let t := trace (call (applyMiddlewares (spyOn baseDataProvider)
                             auditedThenGuarded (KStr "update")) args noon) in
     (exists t', t = EMw 0 args :: t')
     /\ (forall t1 a t2, t = t1 ++ EMw 0 a :: t2 -> t1 = [])
     /\ (forall t1 a t2, t = t1 ++ EMw 1 a :: t2 ->
           a = args /\ exists t0 b, t1 = t0 ++ [ENext 0 b])
     /\ (forall t1 b t2, t = t1 ++ ENext 0 b :: t2 ->
           exists t3, t2 = EMw 1 args :: t3)
     /\ (forall t1 k c t2, t = t1 ++ EBase k c :: t2 ->
           k = KStr "update" /\ exists t0, t1 = t0 ++ [ENext 1 c])
     /\ (forall f t1 c t2, read baseDataProvider (KStr "update") = JFun f ->
           t = t1 ++ ENext 1 c :: t2 ->
           exists t3, t2 = EBase (KStr "update") c :: t3).
Proof.
  split; [exact silent_baseDataProvider|]. split; [reflexivity|].
  exact (@C4_first_listed_runs_outermost World baseDataProvider
           auditedThenGuarded "update" auditLogMiddleware
           dontUpdateMainResourceMiddleware [VStr "comments"; updateParams] noon
           silent_baseDataProvider eq_refl).
Defined.

(** C5 at the bypass test: an unchanged post is not updated, the caller
    receives the previous data; an unchanged comment is updated by the base
    provider. *)
Lemma C5_witness :
  let posts := [VStr "posts"; updateParams] in
  let comments := [VStr "comments"; updateParams] in
  let onPosts := call (applyMiddlewares (spyOn baseDataProvider) bypassedUpdate
                         (KStr "update")) posts noon in
  let onComments := call (applyMiddlewares (spyOn baseDataProvider) bypassedUpdate
                            (KStr "update")) comments noon in
  silent baseDataProvider
  /\ never_calls (dontUpdateMainResourceMiddleware posts)
  /\ dontUpdateMainResourceMiddleware comments = CallNext comments Settle
  /\ trace onPosts = [EMw 0 posts]
  /\ outcome onPosts = Ok (VResolved (VObj [("data", post)]))
  /\ trace onComments
     = [EMw 0 comments; ENext 0 comments; EBase (KStr "update") comments]
  /\ outcome onComments = Ok (VResolved (VArr comments)).
Proof.
  intros posts comments onPosts onComments.
  assert (Hn : never_calls (dontUpdateMainResourceMiddleware posts))
    by apply never_return.
  destruct (@C5_bypass_skips_downstream_and_base World baseDataProvider "update"
              [] posts noon silent_baseDataProvider) as [A _].
  destruct (@C5_bypass_skips_downstream_and_base World baseDataProvider "update"
              [] comments noon silent_baseDataProvider) as [_ B].
  specialize (A bypassedUpdate dontUpdateMainResourceMiddleware [] eq_refl Hn).
  destruct A as (At & _ & _ & Ao).
  destruct (Ao (fun _ => throw VUndefined)) as [Ao' _].
  destruct (B bypassedUpdate dontUpdateMainResourceMiddleware comments _
              eq_refl eq_refl eq_refl) as (Bt & Bo & _).
  split; [exact silent_baseDataProvider|]. split; [exact Hn|].
  split; [reflexivity|]. split; [exact At|]. split; [exact Ao'|].
  split; [exact Bt|exact Bo].
Defined.

(** C6 at a provider whose [update] rejects and whose [getList] throws, and
    at a middleware that throws. *)
Lemma C6_witness :
  let args := [VStr "posts"; updateParams] in
  passedThenRefused !! "update"
  = Some (spied_from 0 (map rewriting [unchanged]) ++ [refusing])
  /\ outcome (call (applyMiddlewares failingDataProvider passedThenRefused
                      (KStr "update")) args noon)
     = Thrown (VStr "refused")
  /\ outcome (call (applyMiddlewares failingDataProvider passedUpdate
                      (KStr "update")) args noon)
     = Ok (VRejected (VStr "conflict"))
  /\ outcome (call (applyMiddlewares failingDataProvider passedGetList
                      (KStr "getList")) args noon)
     = Thrown (VStr "offline")
  /\ outcome (call (applyMiddlewares failingDataProvider noMiddlewares
                      (KStr "getList")) args noon)
     = Thrown (VStr "offline").
Proof.
  intros args.
  destruct (@C6_failures_reach_the_caller_unchanged World failingDataProvider
              "update" [unchanged] args noon) as (_ & _ & _ & Amw & Abase).
  destruct (@C6_failures_reach_the_caller_unchanged World failingDataProvider
              "getList" [unchanged] args noon) as (_ & _ & _ & _ & Bbase).
  destruct (@C6_failures_reach_the_caller_unchanged World failingDataProvider
              "getList" [] args noon) as (_ & _ & _ & _ & Cbase).
  destruct (Amw passedThenRefused refusing [] eq_refl) as (_ & At & _).
  destruct (Abase passedUpdate eq_refl) as (_ & _ & Ar).
  destruct (Bbase passedGetList eq_refl) as (_ & Bt & _).
  destruct (Cbase noMiddlewares eq_refl) as (_ & Ct & _).
  split; [reflexivity|]. split; [exact (At _ eq_refl)|].
  split; [exact (Ar _ eq_refl)|]. split; [exact (Bt _ eq_refl)|exact (Ct _ eq_refl)].
Defined.

(** C7 at [delete], which the base provider of the tests lacks. *)
Lemma C7_witness :
  let args := [VStr "posts"; updateParams] in
  str_props baseDataProvider !! "delete" = None
  /\ (exists f, applyMiddlewares baseDataProvider passedDelete (KStr "delete") = JFun f)
  /\ call (applyMiddlewares baseDataProvider passedDelete (KStr "delete")) args noon
     = {| trace := [EMw 0 args; ENext 0 args]; world := noon;
          outcome := Thrown TypeError |}
  /\ call (applyMiddlewares baseDataProvider noMiddlewares (KStr "delete")) args noon
     = {| trace := []; world := noon; outcome := Thrown TypeError |}.
Proof.
  intros args.
  destruct (@C7_missing_operation_fails_at_call_time World baseDataProvider
              passedDelete "delete" eq_refl) as (A & _ & B & _).
  destruct (@C7_missing_operation_fails_at_call_time World baseDataProvider
              noMiddlewares "delete" eq_refl) as (_ & _ & C & _).
  split; [reflexivity|]. split; [exact A|].
  split; [exact (B [unchanged] args noon eq_refl)|exact (C [] args noon eq_refl)].
Defined.

(** C9 at the first test: the same logging spy listed twice for [getList]. *)
Lemma C9_witness :
  let args := [VStr "posts"] in
  let t := trace (call (applyMiddlewares (spyOn baseDataProvider) sameSpyTwice
                          (KStr "getList")) args noon) in
  silent baseDataProvider
  /\ calls_once (loggingMiddleware "getList" args)
  /\ length (List.filter is_entry t) = 2
  /\ exists b c,
       t = EMw 0 args :: ENext 0 b :: EMw 0 args :: ENext 0 c
           :: base_report baseDataProvider "getList" c.
Proof.
  intros args t.
  assert (Ho : calls_once (loggingMiddleware "getList" args)).
  { apply once_act. intros _. apply once_call. intros [v|e]; constructor. }
  split; [exact silent_baseDataProvider|]. split; [exact Ho|].
  exact (@C9_listed_twice_runs_twice World baseDataProvider sameSpyTwice
           "getList" (loggingMiddleware "getList") args noon
           silent_baseDataProvider eq_refl Ho).
Defined.

(** C10 at an update through a middleware that stamps the data and one that
    delegates the arguments it received: the base method receives the
    caller's arguments. *)
Lemma C10_witness :
  let args := [VStr "posts"; updateParams] in
  silent baseDataProvider
  /\ stampedThenPassed !! "update"
     = Some (spied_from 0 (map rewriting ([stamped (VNum 7)] ++ [unchanged])))
  /\ call (applyMiddlewares (spyOn baseDataProvider) stampedThenPassed
             (KStr "update")) args noon
     = {| trace := [EMw 0 args; ENext 0 (stamped (VNum 7) args);
                    EMw 1 args; ENext 1 args; EBase (KStr "update") args];
          world := noon;
          outcome := Ok (VResolved (VArr args)) |}.
Proof.
  intros args.
  destruct (@C10_only_the_innermost_arguments_reach_the_base World
              baseDataProvider "update" args) as (_ & _ & _ & A).
  split; [exact silent_baseDataProvider|]. split; [reflexivity|].
  exact (A stampedThenPassed [stamped (VNum 7)] unchanged _ noon
           silent_baseDataProvider eq_refl eq_refl).
Defined.

(** C8 at the symbol-keyed method of the base provider of the tests, and at
    a symbol it does not have. *)
Lemma C8_witness :
  let args := [VStr "posts"] in
  read baseDataProvider (KSym 1) = JData VUndefined
  /\ (exists f, applyMiddlewares baseDataProvider twoLoggers (KSym 0) = JFun f)
  /\ outcome (call (applyMiddlewares baseDataProvider twoLoggers (KSym 0)) args noon)
     = Ok (VResolved (VArr args))
  /\ call (applyMiddlewares baseDataProvider twoLoggers (KSym 1)) args noon
     = throw TypeError noon.
Proof.
  intros args.
  destruct (@C8_every_property_reads_as_a_callable World baseDataProvider twoLoggers)
    as (A & B & C).
  split; [reflexivity|]. split; [exact (A (KSym 0))|].
  split; [rewrite (B 0%nat args noon); reflexivity|].
  exact (C 1%nat VUndefined args noon eq_refl).
Defined.

(** * Further properties of the dispatch *)

Section Further.
Context {W : Type}.
Implicit Types (dp : Provider (W := W)) (target : Target (W := W)).
Implicit Types (mws : gmap string (list (Middleware (W := W)))).
Implicit Types (regs : list (gmap string (list (Middleware (W := W))))).
Implicit Types (args b : list Val) (w : W).

(** Wrapping a plain object is wrapping it as seen through [read]. *)
Lemma applyMiddlewares_over dp mws :
  applyMiddlewares dp mws = applyMiddlewaresOver (read dp) mws.
Proof. reflexivity. Qed.

Lemma dispatchOver_listed target mws method l args w :
  mws !! method = Some l ->
  dispatchOver target mws (KStr method) args w
  = invokeChainOver target method l args (VStr method :: args) w.
Proof. intros H. unfold dispatchOver. rewrite H. reflexivity. Qed.

(** X1. The registry entry of one operation does not affect another: adding,
    replacing or removing the middleware list of [other] leaves every call
    of [method] as it was; and an explicitly empty list for [method] is the
    same as no entry. *)
Theorem registry_entries_are_independent dp mws method other
    (l : list Middleware) args w :
  method <> other ->
  dispatch dp (<[other := l]> mws) (KStr method) args w
  = dispatch dp mws (KStr method) args w
  /\ dispatch dp (delete other mws) (KStr method) args w
     = dispatch dp mws (KStr method) args w
  /\ dispatch dp (<[method := []]> mws) (KStr method) args w
     = dispatch dp (delete method mws) (KStr method) args w.
Proof.
  intros Hne. unfold dispatch.
  rewrite lookup_insert_ne by congruence.
  rewrite lookup_delete_ne by congruence.
  rewrite lookup_insert_eq, lookup_delete_eq. auto.
Qed.

(** X2. Calls under a symbol key pass through any number of wrappings,
    whatever their registries: the base property is called with exactly the
    caller's arguments and the call completes as it does, events and world
    included. *)
Theorem symbol_calls_pass_through_every_wrapping target regs n args w :
  call (wrapAll target regs (KSym n)) args w = call (target (KSym n)) args w.
Proof.
  induction regs as [|r regs IH]; [reflexivity|].
  cbn [wrapAll]. unfold applyMiddlewaresOver. cbn [call]. unfold dispatchOver.
  exact IH.
Qed.

(** X3. Each wrapping that has no middleware for [method] puts the
    operation name once more in front of the arguments: through wrappings
    that all leave [method] unconfigured, the base method is called with as
    many copies of the name as there are wrappings, then the caller's
    arguments. *)
Theorem unconfigured_wrappings_stack_the_method_name target regs method args w :
  Forall (fun r => default [] (r !! method) = []) regs ->
  call (wrapAll target regs (KStr method)) args w
  = call (target (KStr method)) (repeat (VStr method) (length regs) ++ args) w.
Proof.
  intros H. revert args. induction H as [|r regs Hr _ IH]; intros args.
  - reflexivity.
  - cbn [wrapAll length]. unfold applyMiddlewaresOver. cbn [call].
    unfold dispatchOver. rewrite Hr. cbv zeta. unfold invokeChainOver.
    rewrite reduceRight_nil. unfold terminalOver. rewrite IH.
    change (repeat (VStr method) (S (length regs)))
      with (VStr method :: repeat (VStr method) (length regs)).
    rewrite repeat_cons, <- app_assoc. reflexivity.
Qed.

(** X4. Wrappings compose where a list does not: through wrappings that
    each hold one argument-rewriting middleware for [method], each
    middleware is entered with the arguments the one above passed on, and
    the base method is called with all the rewritings applied in turn, the
    outermost first. *)
Theorem rewriting_wrappings_compose target method gs args w :
  let inner :=
    call (target (KStr method)) (fold_left (fun a g => g a) gs args) w in
  call (wrapAll target (map (layer method) gs) (KStr method)) args w
  = {| trace := layer_descent args gs ++ trace inner;
       world := world inner;
       outcome := outcome inner |}.
Proof.
  revert args. induction gs as [|g gs IH]; intros args inner; subst inner.
  - cbn. destruct (call (target (KStr method)) args w); reflexivity.
  - cbn [map wrapAll fold_left layer_descent].
    unfold applyMiddlewaresOver at 1. cbn [call].
    erewrite dispatchOver_listed by (unfold layer; apply lookup_singleton_eq).
    unfold invokeChainOver. rewrite reduceRight_cons, reduceRight_nil.
    unfold link, spied. rewrite interp_rewriting. unfold terminalOver.
    rewrite IH. reflexivity.
Qed.

(** X5. A non-empty list of delegating middlewares whose last one passes on
    the arguments it received makes the wrapped operation complete exactly
    as the base method called directly with the caller's arguments: same
    outcome, same world. *)
Theorem delegating_list_reaches_the_base_unchanged dp mws method gs g args w :
  mws !! method = Some (spied_from 0 (map rewriting (gs ++ [g]))) ->
  g args = args ->
  outcome (call (applyMiddlewares dp mws (KStr method)) args w)
  = outcome (call (read dp (KStr method)) args w)
  /\ world (call (applyMiddlewares dp mws (KStr method)) args w)
     = world (call (read dp (KStr method)) args w).
Proof.
  intros Hm Hg. cbn [call applyMiddlewares].
  erewrite dispatch_listed by exact Hm. unfold invokeChain.
  rewrite chain_rewriting, handed_down_snoc, Hg. split; reflexivity.
Qed.

(** ** Accounting for calls *)

Lemma count_events_cons p ev t :
  count_events p (ev :: t) = (if p ev then 1 else 0) + count_events p t.
Proof. unfold count_events. cbn. destruct (p ev); reflexivity. Qed.

Lemma count_events_app p t1 t2 :
  count_events p (t1 ++ t2) = count_events p t1 + count_events p t2.
Proof. unfold count_events. rewrite List.filter_app, length_app. reflexivity. Qed.

(** Two counts that agree on every relayed call agree on the layer. *)
Lemma relayed_count_eq i (inner : list Val -> list Event -> Prop) p q t :
  relayed i inner t ->
  (forall b seg, inner b seg ->
     count_events p (ENext i b :: seg) = count_events q (ENext i b :: seg)) ->
  count_events p t = count_events q t.
Proof.
  intros H Hseg. induction H as [| b seg rest Hin _ IH]; [reflexivity|].
  specialize (Hseg _ _ Hin). rewrite !count_events_cons in *.
  rewrite !count_events_app. lia.
Qed.

Lemma count_events_never t : count_events (fun _ => false) t = 0.
Proof. induction t; auto. Qed.

Lemma base_report_counts dp method b p :
  (forall k c, p (EBase k c) = false) ->
  count_events p (base_report dp method b) = 0.
Proof.
  intros Hp. unfold base_report. destruct (read dp (KStr method)); [|reflexivity].
  rewrite count_events_cons, Hp. reflexivity.
Qed.

(** The counts of a chain numbered from [i] over a spied, silent provider. *)
Lemma chain_account dp method args (bodies : list (list Val -> Prog (W := W))) :
  silent dp ->
  forall i x w,
  let t := trace (reduceRight (link args) (terminal (spyOn dp) method)
                    (spied_from i bodies) x w) in
  (forall j, j < i ->
     count_events (is_entry_of j) t = 0 /\ count_events (is_next_of j) t = 0)
  /\ (bodies <> [] -> count_events (is_entry_of i) t = 1)
  /\ (forall j, i <= j -> S j < i + length bodies ->
        count_events (is_entry_of (S j)) t = count_events (is_next_of j) t)
  /\ (forall f, read dp (KStr method) = JFun f -> bodies <> [] ->
        count_events is_base t
        = count_events (is_next_of (i + length bodies - 1)) t)
  /\ (forall d, read dp (KStr method) = JData d -> count_events is_base t = 0).
Proof.
  intros Hs. induction bodies as [|body rest IH]; intros i x w t; subst t.
  - cbn [spied_from]. rewrite reduceRight_nil, terminal_spyOn_trace by assumption.
    split; [|split; [|split; [|split]]].
    + intros j _. split; apply base_report_counts; reflexivity.
    + congruence.
    + cbn. intros; lia.
    + congruence.
    + intros d Hd. unfold base_report. rewrite Hd. reflexivity.
  - cbn [spied_from]. rewrite reduceRight_cons.
    set (next := reduceRight (link args) (terminal (spyOn dp) method)
                   (spied_from (S i) rest)).
    change (link args next (spied i body) x w)
      with (observed (EMw i args) (interp i next (body args) w)).
    cbn [trace observed].
    pose proof (fun b w' => IH (S i) b w') as IHn. cbv beta zeta in IHn.
    fold next in IHn. clear IH.
    pose proof (interp_relayed i next (body args) w) as R.
    set (t0 := trace (interp i next (body args) w)) in *.
    assert (Z : forall p, (forall b seg, (exists w', seg = trace (next b w')) ->
                             count_events p (ENext i b :: seg) = 0) ->
                          count_events p t0 = 0).
    { intros p Hp. rewrite <- (count_events_never t0).
      eapply relayed_count_eq; [exact R|]. intros b seg Hin.
      rewrite (Hp _ _ Hin), count_events_never. reflexivity. }
    split; [|split; [|split; [|split]]].
    + intros j Hj. rewrite !count_events_cons. cbn [is_entry_of is_next_of].
      destruct (Nat.eqb_spec i j) as [->|_]; [lia|]. cbn [Nat.add].
      split; apply Z; intros b seg (w' & ->); rewrite count_events_cons;
        cbn [is_entry_of is_next_of];
        [|destruct (Nat.eqb_spec i j) as [->|_]; [lia|]];
        apply (IHn b w'); lia.
    + intros _. rewrite count_events_cons. cbn [is_entry_of].
      rewrite Nat.eqb_refl. rewrite Z; [reflexivity|].
      intros b seg (w' & ->). rewrite count_events_cons. cbn [is_entry_of].
      apply (IHn b w'). lia.
    + intros j Hij Hj. cbn [length] in Hj. rewrite !count_events_cons.
      cbn [is_entry_of is_next_of].
      destruct (Nat.eqb_spec i (S j)) as [E|_]; [lia|]. cbn [Nat.add].
      eapply relayed_count_eq; [exact R|]. intros b seg (w' & ->).
      rewrite !count_events_cons. cbn [is_entry_of is_next_of].
      destruct (IHn b w') as (Ha & Hb & Hc & _).
      destruct (Nat.eqb_spec i j) as [<-|Hne].
      * rewrite Hb by (destruct rest; [cbn in Hj; lia | discriminate]).
        destruct (Ha i) as [_ ->]; lia.
      * cbn [Nat.add]. apply Hc; lia.
    + intros f Hf _. cbn [length]. rewrite !count_events_cons.
      cbn [is_base is_next_of]. cbn [Nat.add].
      replace (i + S (length rest) - 1) with (i + length rest) by lia.
      eapply relayed_count_eq; [exact R|]. intros b seg (w' & ->).
      rewrite !count_events_cons. cbn [is_base is_next_of].
      destruct rest as [|body' rest'].
      * subst next. cbn [spied_from length]. rewrite reduceRight_nil.
        rewrite terminal_spyOn_trace by assumption. unfold base_report.
        rewrite Hf. replace (i + 0) with i by lia.
        rewrite Nat.eqb_refl. reflexivity.
      * destruct (IHn b w') as (_ & _ & _ & Hd & _).
        rewrite (Hd f Hf) by discriminate.
        destruct (Nat.eqb_spec i (i + length (body' :: rest'))) as [E|_];
          [cbn in E; lia|].
        cbn [Nat.add]. f_equal. f_equal. cbn [length]. lia.
    + intros d Hd. rewrite count_events_cons. cbn [is_base Nat.add].
      apply Z. intros b seg (w' & ->). rewrite count_events_cons.
      cbn [is_base Nat.add]. apply (IHn b w') with (d := d). assumption.
Qed.

(** X6. The chain keeps no count of the calls of [next]: over a spied,
    silent base provider and any list of middleware bodies, the first
    middleware is entered once, every other middleware is entered exactly as
    many times as the one listed before it calls its [next], and the base
    method is entered exactly as many times as the last middleware calls its
    [next] (never, when the base provider lacks the method). *)
Theorem each_layer_runs_once_per_call_of_next dp mws method
    (bodies : list (list Val -> Prog (W := W))) args w :
  silent dp ->
  mws !! method = Some (spied_from 0 bodies) ->
  bodies <> [] ->
  let t := trace (call (applyMiddlewares (spyOn dp) mws (KStr method)) args w) in
  count_events (is_entry_of 0) t = 1
  /\ (forall j, S j < length bodies ->
        count_events (is_entry_of (S j)) t = count_events (is_next_of j) t)
  /\ (forall f, read dp (KStr method) = JFun f ->
        count_events is_base t
        = count_events (is_next_of (length bodies - 1)) t)
  /\ (forall d, read dp (KStr method) = JData d -> count_events is_base t = 0).
Proof.
  intros Hs Hm Hne t. subst t. cbn [call applyMiddlewares].
  erewrite dispatch_listed by exact Hm. unfold invokeChain.
  destruct (chain_account method args bodies Hs 0 (VStr method :: args) w)
    as (_ & Hb & Hc & Hd & He).
  split; [auto|]. split; [intros j Hj; apply Hc; lia|].
  split; [intros f Hf; apply (Hd f Hf Hne)|exact He].
Qed.

End Further.

(** * The middlewares of the test suite, on every input *)

(** ** Object update *)



(** Deep equality holds of a value and itself. *)
Lemma isEqual_refl : forall v, isEqual v v = true.
Proof.
  fix IH 1. intros v. destruct v as [| |x|n|s|items|fields|n m|v|v]; cbn.
  - reflexivity.
  - reflexivity.
  - destruct x; reflexivity.
  - apply Z.eqb_refl.
  - apply String.eqb_refl.
  - induction items as [|x xs IHxs]; [reflexivity|].
    rewrite (IH x), IHxs. reflexivity.
  - induction fields as [|[k x] xs IHxs]; [reflexivity|].
    rewrite String.eqb_refl, (IH x), IHxs. reflexivity.
  - rewrite !String.eqb_refl. reflexivity.
  - apply IH.
  - apply IH.
Qed.

Lemma isEqual_other_string v s : v <> VStr s -> isEqual v (VStr s) = false.
Proof.
  intros Hne. destruct v; try reflexivity. cbn.
  destruct (String.eqb_spec s0 s); [congruence | reflexivity].
Qed.

(** ** [auditLogMiddleware] *)


(** X8. Called without parameters ([undefined] or [null] in their place),
    the audit-log middleware throws before calling its [next]: whatever is
    listed after it, nothing below it is entered and the world is
    untouched. *)
Theorem auditLog_without_params_throws
    (dp : Provider (W := World)) mws method (rest : list Middleware) args w :
  mws !! method = Some (spied 0 auditLogMiddleware :: rest) ->
  nth 1 args VUndefined = VUndefined \/ nth 1 args VUndefined = VNull ->
  call (applyMiddlewares dp mws (KStr method)) args w
  = {| trace := [EMw 0 args]; world := w; outcome := Thrown ReadError |}.
Proof.
  intros Hm Hp. cbn [call applyMiddlewares].
  erewrite dispatch_listed by exact Hm. rewrite invokeChain_cons.
  unfold link, spied, auditLogMiddleware.
  destruct Hp as [-> | ->]; reflexivity.
Qed.

(** ** [dontUpdateMainResourceMiddleware] *)

(** X9. For every update of a post whose [data] and [previousData] are the
    same value, whatever else the parameters hold, whatever further
    arguments are passed and whatever is listed after the guard: the guard
    alone is entered, nothing below it runs, the world is untouched, and the
    caller receives a promise resolved with the previous data. *)
Theorem guard_skips_unchanged_posts
    (dp : Provider (W := World)) mws method (rest : list Middleware) fs extra w :
  mws !! method = Some (spied 0 dontUpdateMainResourceMiddleware :: rest) ->
  assoc "data" fs = assoc "previousData" fs ->
  let args := VStr "posts" :: VObj fs :: extra in
  call (applyMiddlewares dp mws (KStr method)) args w
  = {| trace := [EMw 0 args]; world := w;
       outcome := Ok (VResolved (VObj [("data", assoc "previousData" fs)])) |}.
Proof.
  intros Hm Hd args. cbn [call applyMiddlewares].
  erewrite dispatch_listed by exact Hm. rewrite invokeChain_cons.
  unfold link, spied, dontUpdateMainResourceMiddleware. cbn [nth args].
  cbn [field]. rewrite Hd, !isEqual_refl. reflexivity.
Qed.

(** X10. For every resource other than ["posts"], the guard, listed alone,
    delegates: the base method is entered with the resource and the
    parameters and nothing more, any further argument of the caller being
    dropped, and the caller receives what the base method returns. *)
Theorem guard_delegates_other_resources
    (dp : Provider (W := World)) mws method f resource params extra w :
  silent dp ->
  mws !! method = Some [spied 0 dontUpdateMainResourceMiddleware] ->
  read dp (KStr method) = JFun f ->
  resource <> VStr "posts" ->
  let args := resource :: params :: extra in
  call (applyMiddlewares (spyOn dp) mws (KStr method)) args w
  = {| trace := [EMw 0 args; ENext 0 [resource; params];
                 EBase (KStr method) [resource; params]];
       world := world (f [resource; params] w);
       outcome := outcome (f [resource; params] w) |}.
Proof.
  intros Hs Hm Hf Hr args. cbn [call applyMiddlewares].
  erewrite dispatch_listed by exact Hm.
  rewrite invokeChain_cons, invokeChain_nil.
  unfold link, spied, dontUpdateMainResourceMiddleware. cbn [nth args].
  rewrite (isEqual_other_string Hr). cbn [negb].
  change (CallNext [resource; params] Settle)
    with (rewriting (W := World) (fun _ => [resource; params]) args).
  rewrite interp_rewriting. erewrite terminal_spyOn_fun by exact Hf.
  unfold observed. cbn [trace world outcome]. rewrite (Hs _ _ _ _ Hf).
  reflexivity.
Qed.

(** ** [loggingMiddleware] *)

(** X11. The logging middleware calls its [next] and drops what it returns:
    listed first, whatever follows it, it logs the method name and the
    arguments, runs the rest of the chain once with the caller's arguments,
    and the caller receives [undefined] in place of whatever the rest
    returned, a promise included; an exception thrown below still reaches
    the caller. *)
Theorem logging_drops_the_result
    (dp : Provider (W := World)) mws method name (rest : list Middleware) args w :
  mws !! method = Some (spied 0 (loggingMiddleware name) :: rest) ->
  let logged := {| clock := clock w; console := (VStr name :: args) :: console w |} in
  let inner := invokeChain dp method rest args args logged in
  let r := call (applyMiddlewares dp mws (KStr method)) args w in
  trace r = EMw 0 args :: ENext 0 args :: trace inner
  /\ world r = world inner
  /\ outcome r = match outcome inner with
                 | Ok _ => Ok VUndefined
                 | Thrown e => Thrown e
                 end.
Proof.
  intros Hm logged inner r. subst r. cbn [call applyMiddlewares].
  erewrite dispatch_listed by exact Hm. rewrite invokeChain_cons.
  unfold link, spied, loggingMiddleware. cbn [interp fst snd].
  fold logged. fold inner. cbn [trace world outcome observed after].
  destruct (outcome inner); cbn; rewrite app_nil_r; auto.
Qed.

(** * The further properties at the scenarios of the tests *)

Lemma registry_entries_are_independent_witness :
  "getList" <> "update"
  /\ dispatch baseDataProvider
       (<["update" := [spied 0 auditLogMiddleware]]> twoLoggers)
       (KStr "getList") [VStr "posts"] noon
     = dispatch baseDataProvider twoLoggers (KStr "getList") [VStr "posts"] noon.
Proof.
  assert (Hne : "getList" <> "update") by discriminate.
  split; [exact Hne|].
  exact (proj1 (@registry_entries_are_independent World baseDataProvider
                  twoLoggers "getList" "update" [spied 0 auditLogMiddleware]
                  [VStr "posts"] noon Hne)).
Defined.

Lemma unconfigured_wrappings_stack_the_method_name_witness :
  Forall (fun r => default [] (r !! "getList") = [])
         [noMiddlewares; bypassedUpdate]
  /\ outcome (call (wrapAll (read baseDataProvider) [noMiddlewares; bypassedUpdate]
                      (KStr "getList")) [VStr "posts"] noon)
     = Ok (VResolved (VArr [VStr "getList"; VStr "getList"; VStr "posts"])).
Proof.
  assert (H : Forall (fun r => default [] (r !! "getList") = [])
                     [noMiddlewares; bypassedUpdate])
    by (repeat constructor).
  split; [exact H|].
  rewrite (@unconfigured_wrappings_stack_the_method_name World
             (read baseDataProvider) [noMiddlewares; bypassedUpdate] "getList"
             [VStr "posts"] noon H).
  reflexivity.
Defined.

Lemma delegating_list_reaches_the_base_unchanged_witness :
  let args := [VStr "posts"; updateParams] in
  stampedThenPassed !! "update"
  = Some (spied_from 0 (map rewriting ([stamped (VNum 7)] ++ [unchanged])))
  /\ unchanged args = args
  /\ outcome (call (applyMiddlewares baseDataProvider stampedThenPassed
                      (KStr "update")) args noon)
     = outcome (call (read baseDataProvider (KStr "update")) args noon).
Proof.
  intros args. split; [reflexivity|]. split; [reflexivity|].
  exact (proj1 (@delegating_list_reaches_the_base_unchanged World baseDataProvider
                  stampedThenPassed "update" [stamped (VNum 7)] unchanged args noon
                  eq_refl eq_refl)).
Defined.

Lemma each_layer_runs_once_per_call_of_next_witness :
  let bodies := [loggingMiddleware "getList"; loggingMiddleware "getList"] in
  let t := trace (call (applyMiddlewares (spyOn baseDataProvider) twoLoggers
                          (KStr "getList")) [VStr "posts"] noon) in
  silent baseDataProvider
  /\ twoLoggers !! "getList" = Some (spied_from 0 bodies)
  /\ bodies <> []
  /\ count_events (is_entry_of 0) t = 1
  /\ count_events (is_entry_of 1) t = count_events (is_next_of 0) t
  /\ count_events is_base t = count_events (is_next_of 1) t.
Proof.
  intros bodies t.
  assert (Hne : bodies <> []) by discriminate.
  destruct (@each_layer_runs_once_per_call_of_next World baseDataProvider
              twoLoggers "getList" bodies [VStr "posts"] noon
              silent_baseDataProvider eq_refl Hne) as (A & B & C & _).
  split; [exact silent_baseDataProvider|]. split; [reflexivity|].
  split; [exact Hne|]. split; [exact A|].
  split; [apply (B 0%nat); cbn; lia|].
  exact (C _ eq_refl).
Defined.


Lemma auditLog_without_params_throws_witness :
  auditedThenPassed !! "update"
  = Some (spied 0 auditLogMiddleware :: spied_from 1 [passThrough])
  /\ nth 1 [VStr "posts"] VUndefined = VUndefined
  /\ call (applyMiddlewares baseDataProvider auditedThenPassed (KStr "update"))
          [VStr "posts"] noon
     = {| trace := [EMw 0 [VStr "posts"]]; world := noon;
          outcome := Thrown ReadError |}.
Proof.
  split; [reflexivity|]. split; [reflexivity|].
  exact (@auditLog_without_params_throws baseDataProvider auditedThenPassed
           "update" (spied_from 1 [passThrough]) [VStr "posts"] noon
           eq_refl (or_introl eq_refl)).
Defined.

Lemma guard_skips_unchanged_posts_witness :
  let fs := [("id", VNum 1); ("data", post); ("previousData", post)] in
  let args := [VStr "posts"; VObj fs] in
  bypassedUpdate !! "update" = Some [spied 0 dontUpdateMainResourceMiddleware]
  /\ assoc "data" fs = assoc "previousData" fs
  /\ call (applyMiddlewares baseDataProvider bypassedUpdate (KStr "update")) args noon
     = {| trace := [EMw 0 args]; world := noon;
          outcome := Ok (VResolved (VObj [("data", post)])) |}.
Proof.
  intros fs args. split; [reflexivity|]. split; [reflexivity|].
  exact (@guard_skips_unchanged_posts baseDataProvider bypassedUpdate "update"
           [] fs [] noon eq_refl eq_refl).
Defined.

Lemma guard_delegates_other_resources_witness :
  let sent := [VStr "comments"; updateParams] in
  let args := sent ++ [VStr "extra"] in
  silent baseDataProvider
  /\ VStr "comments" <> VStr "posts"
  /\ call (applyMiddlewares (spyOn baseDataProvider) bypassedUpdate (KStr "update"))
          args noon
     = {| trace := [EMw 0 args; ENext 0 sent; EBase (KStr "update") sent];
          world := noon;
          outcome := Ok (VResolved (VArr sent)) |}.
Proof.
  intros sent args.
  assert (Hne : VStr "comments" <> VStr "posts") by discriminate.
  split; [exact silent_baseDataProvider|]. split; [exact Hne|].
  exact (@guard_delegates_other_resources baseDataProvider bypassedUpdate
           "update" _ (VStr "comments") updateParams [VStr "extra"] noon
           silent_baseDataProvider eq_refl eq_refl Hne).
Defined.

Lemma logging_drops_the_result_witness :
  let r := call (applyMiddlewares baseDataProvider sameSpyTwice (KStr "getList"))
                [VStr "posts"] noon in
  sameSpyTwice !! "getList"
  = Some [spied 0 (loggingMiddleware "getList"); spied 0 (loggingMiddleware "getList")]
  /\ outcome r = Ok VUndefined
  /\ console (world r)
     = [[VStr "getList"; VStr "posts"]; [VStr "getList"; VStr "posts"]].
Proof.
  intros r. split; [reflexivity|].
  destruct (@logging_drops_the_result baseDataProvider sameSpyTwice "getList"
              "getList" [spied 0 (loggingMiddleware "getList")] [VStr "posts"] noon
              eq_refl) as (_ & Hw & Ho).
  subst r. split; [rewrite Ho; reflexivity | rewrite Hw; reflexivity].
Defined.
